(** * strip_jsonc_comments: removal of [//] and [/* */] comments from JSONC

    A shallow embedding of [scripts/strip_jsonc_comments.py] and the
    properties of its only function, [strip_comments], and of the script
    around it.

    A Python [str] is a sequence of Unicode code points: a character is
    modelled by its code point (an [N]) and a text by a list of them.  The
    cursor [i] is a natural number, [jsonc_text[i]] is a partial lookup
    (Python raises [IndexError] out of range), a slice [jsonc_text[a:b]] is
    total and clamps at the end of the text, and every [while] loop runs on
    fuel. *)

From Stdlib Require Import NArith Ascii String.
From stdpp Require Import base tactics option list.

Local Open Scope nat_scope.

(** ** Characters and texts *)

Abbreviation char := N (only parsing).
Abbreviation text := (list N) (only parsing).

Definition backslash : char := 92%N.
Definition dquote : char := 34%N.
Definition slash : char := 47%N.
Definition star : char := 42%N.
Definition newline : char := 10%N.

(** The text of a string literal, character by character. *)
Definition text_of_string (s : string) : text :=
  N_of_ascii <$> list_ascii_of_string s.

Definition line_marker : text := [slash; slash].
Definition block_open : text := [slash; star].
Definition block_close : text := [star; slash].

(** ** Results of a computation that may raise or run out of fuel *)

Inductive res (A : Type) : Type :=
| Ok (a : A)
| IndexError
| OutOfFuel.
Arguments Ok {A} a.
Arguments IndexError {A}.
Arguments OutOfFuel {A}.

Definition bind {A B : Type} (m : res A) (f : A -> res B) : res B :=
  match m with
  | Ok a => f a
  | IndexError => IndexError
  | OutOfFuel => OutOfFuel
  end.

Notation "'let!' x := m 'in' k" := (bind m (fun x => k))
  (at level 10, x name, m at level 100, k at level 200).

(** [jsonc_text[i]] for a cursor [i >= 0]. *)
Definition index (t : text) (i : nat) : res char :=
  match t !! i with
  | Some c => Ok c
  | None => IndexError
  end.

(** [jsonc_text[a:b]] for [0 <= a <= b]: never raises, clamps at the end. *)
Definition slice (t : text) (a b : nat) : text := take (b - a) (drop a t).

Definition text_eqb (u v : text) : bool := bool_decide (u = v).

(** ** The scanner state: the four local variables of [strip_comments] *)

Record state : Type := State {
  result : text;
  i : nat;
  in_string : bool;
  escape_next : bool
}.

Definition init : state := State [] 0 false false.

(** [result.append(char); i += 1], the flags given. *)
Definition emit (s : state) (c : char) (ins esc : bool) : state :=
  State (result s ++ [c]) (i s + 1) ins esc.

(** [while i < len(jsonc_text) and jsonc_text[i] != "\n": i += 1] *)
Fixpoint skip_line (fuel : nat) (t : text) (i : nat) : res nat :=
  match fuel with
  | O => OutOfFuel
  | S fuel' =>
      if i <? length t then
        let! c := index t i in
        if negb (c =? newline)%N then skip_line fuel' t (i + 1) else Ok i
      else Ok i
  end.

(** [while i < len(jsonc_text) - 1:
       if jsonc_text[i : i + 2] == "*/": i += 2; break
       i += 1] *)
Fixpoint skip_block (fuel : nat) (t : text) (i : nat) : res nat :=
  match fuel with
  | O => OutOfFuel
  | S fuel' =>
      if i <? length t - 1 then
        if text_eqb (slice t i (i + 2)) block_close then Ok (i + 2)
        else skip_block fuel' t (i + 1)
      else Ok i
  end.

(** One iteration of the outer loop, entered with [i < len(jsonc_text)].
    The inner loops advance the cursor at each turn, so [len + 1] turns
    are enough for them ([body_total]). *)
Definition body (t : text) (s : state) : res state :=
  let! c := index t (i s) in
  if escape_next s then
    Ok (emit s c (in_string s) false)
  else if (c =? backslash)%N && in_string s then
    Ok (emit s c (in_string s) true)
  else if (c =? dquote)%N && negb (escape_next s) then
    Ok (emit s c (negb (in_string s)) (escape_next s))
  else if negb (in_string s) then
    if text_eqb (slice t (i s) (i s + 2)) line_marker then
      let! j := skip_line (S (length t)) t (i s) in
      Ok (State (result s) j (in_string s) (escape_next s))
    else if text_eqb (slice t (i s) (i s + 2)) block_open then
      let! j := skip_block (S (length t)) t (i s + 2) in
      Ok (State (result s) j (in_string s) (escape_next s))
    else Ok (emit s c (in_string s) (escape_next s))
  else Ok (emit s c (in_string s) (escape_next s)).

(** [while i < len(jsonc_text): body] *)
Fixpoint loop (fuel : nat) (t : text) (s : state) : res state :=
  match fuel with
  | O => OutOfFuel
  | S fuel' =>
      if i s <? length t then
        let! s' := body t s in loop fuel' t s'
      else Ok s
  end.

(** The whole function; [return "".join(result)].  Each iteration advances
    the cursor, so [len + 1] turns of the outer loop are enough
    ([strip_comments_total]). *)
Definition strip_comments (jsonc_text : text) : res text :=
  let! s := loop (S (length jsonc_text)) jsonc_text init in
  Ok (result s).

(** ** The scan read off the remaining input

    The same scan as a function of the text still to be read, the cursor
    being the length of what was dropped: [rest_line] and [rest_block] are
    what the inner loops leave, [scan] is what the outer loop appends from
    a given cursor on.  [body_scan] and [loop_scan] relate them to the
    loops above. *)

Fixpoint rest_line (l : text) : text :=
  match l with
  | [] => []
  | c :: l' => if (c =? newline)%N then l else rest_line l'
  end.

Fixpoint rest_block (l : text) : text :=
  match l with
  | [] => []
  | c :: l' =>
      match l' with
      | [] => l
      | d :: l'' => if text_eqb [c; d] block_close then l'' else rest_block l'
      end
  end.

Fixpoint scan (n : nat) (ins esc : bool) (l : text) : text :=
  match n, l with
  | S n', c :: l' =>
      if esc then c :: scan n' ins false l'
      else if (c =? backslash)%N && ins then c :: scan n' ins true l'
      else if (c =? dquote)%N then c :: scan n' (negb ins) false l'
      else if negb ins && text_eqb (take 2 l) line_marker then
        scan n' false false (rest_line l)
      else if negb ins && text_eqb (take 2 l) block_open then
        scan n' false false (rest_block (drop 2 l))
      else c :: scan n' ins false l'
  | _, _ => []
  end.

Definition scan_all (ins esc : bool) (l : text) : text :=
  scan (length l) ins esc l.

(** What is still to be appended from state [s] on. *)
Definition pending (t : text) (s : state) : text :=
  scan_all (in_string s) (escape_next s) (drop (i s) t).

(** The states the outer loop passes through, at the head of the loop. *)
Inductive reachable (t : text) : state -> Prop :=
| reach_init : reachable t init
| reach_step (s s' : state) :
    reachable t s -> i s < length t -> body t s = Ok s' -> reachable t s'.

(** Python literals used by the examples: [lit "ab"] is the text [ab],
    [q "ab"] is the text of the double-quoted [ab]. *)
Definition lit (s : string) : text := text_of_string s.
Definition q (s : string) : text := [dquote] ++ text_of_string s ++ [dquote].

(** [occurs p t]: the text [p] occurs in [t] as a block of consecutive
    characters. *)
Fixpoint occurs (p t : text) : bool :=
  match t with
  | [] => text_eqb p []
  | _ :: t' => text_eqb (take (length p) t) p || occurs p t'
  end.

(** The texts of the examples. *)
Definition never_closed : text := lit "1 /* never closed".
Definition line_in : text :=
  lit "{" ++ q "a" ++ lit ": 1, // trailing" ++ [newline] ++ q "b" ++ lit ": 2}".
Definition line_out : text :=
  lit "{" ++ q "a" ++ lit ": 1, " ++ [newline] ++ q "b" ++ lit ": 2}".
Definition block_in : text :=
  lit "{" ++ q "a" ++ lit ": /* c1" ++ [newline] ++ lit "c2 */ 1}".
Definition block_out : text := lit "{" ++ q "a" ++ lit ":  1}".
Definition escaped_quote : text :=
  [dquote] ++ lit "a \" ++ [dquote] ++ lit "// still string\" ++ [dquote]
    ++ lit " b" ++ [dquote].

(** The script: [print(strip_comments(sys.stdin.read()))], as a function
    from the text read on standard input to the text written on standard
    output; [print] writes its argument followed by a newline. *)
Definition main (stdin : text) : res text :=
  let! out := strip_comments stdin in
  Ok (out ++ [newline]).

(** [string_body w]: [w] can stand between the quotes of a string literal:
    it has no double quote and no backslash but in pairs of a backslash
    and the character it escapes. *)
Fixpoint string_body (w : text) : bool :=
  match w with
  | [] => true
  | c :: w' =>
      if (c =? backslash)%N then
        match w' with
        | [] => false
        | _ :: w'' => string_body w''
        end
      else if (c =? dquote)%N then false
      else string_body w'
  end.

(** The number of newline characters of a text. *)
Definition newlines (t : text) : nat :=
  length (filter (fun c => c = newline) t).

(** ** Lists, lookups and slices *)

Lemma index_Ok (t : text) (k : nat) (c : char) : index t k = Ok c <-> t !! k = Some c.
Proof. unfold index. destruct (t !! k); split; congruence. Qed.

Lemma index_lt (t : text) (k : nat) : k < length t -> exists c, index t k = Ok c /\ t !! k = Some c.
Proof.
  intros H. destruct (lookup_lt_is_Some_2 t k H) as [c Hc].
  exists c. split; [by apply index_Ok | done].
Qed.

Lemma slice_2 (t : text) (k : nat) : slice t k (k + 2) = take 2 (drop k t).
Proof. unfold slice. by replace (k + 2 - k) with 2 by lia. Qed.

Lemma drop_cons_lookup (t : text) (k : nat) (c : char) :
  t !! k = Some c -> drop k t = c :: drop (k + 1) t.
Proof. intros H. rewrite Nat.add_1_r. by apply drop_S. Qed.

Lemma text_eqb_eq (u v : text) : text_eqb u v = true <-> u = v.
Proof. unfold text_eqb. apply bool_decide_eq_true. Qed.

Lemma text_eqb_neq (u v : text) : text_eqb u v = false <-> u <> v.
Proof. unfold text_eqb. apply bool_decide_eq_false. Qed.

(** ** What the inner loops leave *)

Lemma rest_line_length (l : text) : length (rest_line l) <= length l.
Proof.
  induction l as [|c l IH]; simpl; [lia|].
  destruct (c =? newline)%N; simpl; lia.
Qed.

Lemma rest_block_length (l : text) : length (rest_block l) <= length l.
Proof.
  induction l as [|c l IH]; simpl; [lia|].
  destruct l as [|d l]; [simpl; lia|].
  destruct (text_eqb [c; d] block_close); simpl in *; lia.
Qed.

Lemma rest_line_marker (l : text) :
  take 2 l = line_marker -> length (rest_line l) < length l.
Proof.
  destruct l as [|c l]; [discriminate|].
  intros H. assert (c = slash) as -> by (destruct l; by inversion H).
  simpl. pose proof (rest_line_length l). lia.
Qed.

Lemma rest_block_open (l : text) :
  take 2 l = block_open -> length (rest_block (drop 2 l)) < length l.
Proof.
  destruct l as [|c [|d l]]; try discriminate.
  intros _. pose proof (rest_block_length l). simpl in *.
  rewrite drop_0. lia.
Qed.

(** ** The scan does not depend on its fuel, once it covers the text *)

(** A comment branch of [scan] was taken: the reader is outside a string,
    the opener heads the text, and what the comment leaves is shorter. *)
Ltac comment_branch E Hlt :=
  let Hins := fresh "Hins" in
  apply andb_true_iff in E as [Hins E];
  apply negb_true_iff in Hins as ->;
  apply text_eqb_eq in E;
  first [ pose proof (rest_line_marker _ E) as Hlt
        | pose proof (rest_block_open _ E) as Hlt ];
  cbn [length] in Hlt.

Lemma scan_fuel (n m : nat) (ins esc : bool) (l : text) :
  length l <= n -> length l <= m -> scan n ins esc l = scan m ins esc l.
Proof.
  revert m ins esc l.
  induction n as [|n IH]; intros m ins esc l Hn Hm.
  { destruct l; [|simpl in Hn; lia]. by destruct m. }
  destruct l as [|c l]; [by destruct m|].
  destruct m as [|m]; [simpl in Hm; lia|].
  simpl in Hn, Hm.
  assert (Hl : length l <= n) by lia. assert (Hl' : length l <= m) by lia.
  cbn [scan].
  destruct esc; [by rewrite (IH m)|].
  destruct ((c =? backslash)%N && ins); [by rewrite (IH m)|].
  destruct (c =? dquote)%N; [by rewrite (IH m)|].
  destruct (negb ins && text_eqb (take 2 (c :: l)) line_marker) eqn:E1.
  { comment_branch E1 Hlt.
    apply IH; lia. }
  destruct (negb ins && text_eqb (take 2 (c :: l)) block_open) eqn:E2.
  { comment_branch E2 Hlt.
    apply IH; lia. }
  by rewrite (IH m).
Qed.

Lemma scan_all_nil (ins esc : bool) : scan_all ins esc [] = [].
Proof. reflexivity. Qed.

Lemma scan_all_cons (ins esc : bool) (c : char) (l : text) :
  scan_all ins esc (c :: l) =
    if esc then c :: scan_all ins false l
    else if (c =? backslash)%N && ins then c :: scan_all ins true l
    else if (c =? dquote)%N then c :: scan_all (negb ins) false l
    else if negb ins && text_eqb (take 2 (c :: l)) line_marker then
      scan_all false false (rest_line (c :: l))
    else if negb ins && text_eqb (take 2 (c :: l)) block_open then
      scan_all false false (rest_block (drop 2 (c :: l)))
    else c :: scan_all ins false l.
Proof.
  unfold scan_all. cbn [length scan].
  destruct esc; [done|].
  destruct ((c =? backslash)%N && ins); [done|].
  destruct (c =? dquote)%N; [done|].
  destruct (negb ins && text_eqb (take 2 (c :: l)) line_marker) eqn:E1.
  { comment_branch E1 Hlt.
    apply scan_fuel; lia. }
  destruct (negb ins && text_eqb (take 2 (c :: l)) block_open) eqn:E2.
  { comment_branch E2 Hlt.
    apply scan_fuel; lia. }
  done.
Qed.

(** ** The inner loops, by cursor and by remaining text *)

Lemma skip_line_spec (fuel : nat) (t : text) (k : nat) :
  length t - k < fuel -> k <= length t ->
  exists j, skip_line fuel t k = Ok j /\ k <= j <= length t /\
    drop j t = rest_line (drop k t) /\
    (forall m, k <= m < j -> t !! m <> Some newline) /\
    (j < length t -> t !! j = Some newline).
Proof.
  revert k. induction fuel as [|fuel IH]; intros k Hf Hk; [lia|].
  cbn [skip_line]. destruct (Nat.ltb_spec k (length t)) as [Hlt|Hge].
  - destruct (index_lt t k Hlt) as (c & -> & Hc). cbn [bind].
    rewrite (drop_cons_lookup _ _ _ Hc). cbn [rest_line].
    destruct (N.eqb_spec c newline) as [->|Hne]; cbn [negb].
    + exists k. rewrite <- (drop_cons_lookup _ _ _ Hc).
      repeat split; try done; try lia.
    + destruct (IH (k + 1)) as (j & -> & Hj & Hd & Hno & Hat); [lia..|].
      exists j. repeat split; try done; try lia.
      intros m Hm. destruct (decide (m = k)) as [->|]; [congruence|].
      apply Hno. lia.
  - exists k. rewrite drop_ge by lia.
    repeat split; try done; try lia; intros; lia.
Qed.

Lemma drop_two (t : text) (k : nat) :
  k < length t - 1 ->
  exists c d, t !! k = Some c /\ t !! (k + 1) = Some d /\
    drop k t = c :: d :: drop (k + 2) t.
Proof.
  intros Hk.
  destruct (lookup_lt_is_Some_2 t k) as [c Hc]; [lia|].
  destruct (lookup_lt_is_Some_2 t (k + 1)) as [d Hd]; [lia|].
  exists c, d. repeat split; try done.
  rewrite (drop_cons_lookup _ _ _ Hc), (drop_cons_lookup _ _ _ Hd).
  by replace (k + 1 + 1) with (k + 2) by lia.
Qed.

Lemma skip_block_spec (fuel : nat) (t : text) (k : nat) :
  length t - k < fuel -> k <= length t ->
  exists j, skip_block fuel t k = Ok j /\ k <= j <= length t /\
    drop j t = rest_block (drop k t).
Proof.
  revert k. induction fuel as [|fuel IH]; intros k Hf Hk; [lia|].
  cbn [skip_block]. destruct (Nat.ltb_spec k (length t - 1)) as [Hlt|Hge].
  - destruct (drop_two t k Hlt) as (c & d & Hc & Hd & Hdrop).
    rewrite slice_2, Hdrop. change (take 2 (c :: d :: ?l)) with [c; d].
    cbn [rest_block].
    destruct (text_eqb [c; d] block_close).
    + exists (k + 2). repeat split; try done; lia.
    + destruct (IH (k + 1)) as (j & -> & Hj & Hdj); [lia..|].
      exists j. repeat split; try lia.
      rewrite Hdj, (drop_cons_lookup _ _ _ Hd).
      by replace (k + 1 + 1) with (k + 2) by lia.
  - exists k. repeat split; try lia.
    destruct (decide (k = length t)) as [->|Hne].
    + by rewrite drop_all.
    + destruct (lookup_lt_is_Some_2 t k) as [c Hc]; [lia|].
      rewrite (drop_cons_lookup _ _ _ Hc), drop_ge by lia. done.
Qed.

(** ** One iteration, by cursor and by remaining text *)

Lemma take_2_marker (l : text) (a b : char) :
  take 2 l = [a; b] -> exists l', l = a :: b :: l'.
Proof.
  destruct l as [|c [|d l]]; try discriminate.
  intros [= -> ->]. by exists l.
Qed.

Lemma body_scan (t : text) (s : state) :
  i s < length t ->
  exists s', body t s = Ok s' /\ i s < i s' <= length t /\
    result s ++ pending t s = result s' ++ pending t s' /\
    (escape_next s' = true -> in_string s' = true).
Proof.
  destruct s as [r k ins esc]. unfold pending, body. cbn [result i in_string escape_next].
  intros Hk. destruct (index_lt t k Hk) as (c & -> & Hc). cbn [bind].
  pose proof (drop_cons_lookup _ _ _ Hc) as Hdrop.
  rewrite slice_2, Hdrop, scan_all_cons, <- Hdrop.
  assert (Hemit : forall ins' esc', (esc' = true -> ins' = true) ->
    exists s', Ok (emit (State r k ins esc) c ins' esc') = Ok s' /\
      k < i s' <= length t /\
      r ++ c :: scan_all ins' esc' (drop (k + 1) t) =
        result s' ++ scan_all (in_string s') (escape_next s') (drop (i s') t) /\
      (escape_next s' = true -> in_string s' = true)).
  { intros ins' esc' Hinv. eexists. split; [done|]. unfold emit. simpl.
    rewrite <- app_assoc. repeat split; try done; lia. }
  destruct esc; [by apply Hemit|].
  destruct (c =? backslash)%N eqn:Ebs; destruct ins; cbn [andb negb].
  - by apply Hemit.
  - apply N.eqb_eq in Ebs as ->. change (backslash =? dquote)%N with false.
    cbn [andb].
    assert (text_eqb (take 2 (drop k t)) line_marker = false) as ->.
    { rewrite Hdrop. apply text_eqb_neq. destruct (drop (k + 1) t); discriminate. }
    assert (text_eqb (take 2 (drop k t)) block_open = false) as ->.
    { rewrite Hdrop. apply text_eqb_neq. destruct (drop (k + 1) t); discriminate. }
    by apply Hemit.
  - destruct (c =? dquote)%N; cbn [andb negb]; by apply Hemit.
  - destruct (c =? dquote)%N; cbn [andb negb]; [by apply Hemit|].
    destruct (text_eqb (take 2 (drop k t)) line_marker) eqn:E1.
    { apply text_eqb_eq in E1.
      destruct (skip_line_spec (S (length t)) t k) as (j & -> & Hj & Hd & _ & Hat);
        [lia..|].
      cbn [bind]. eexists. split; [done|]. cbn [result i in_string escape_next].
      rewrite Hd. repeat split; try done; try lia.
      destruct (decide (j = k)) as [->|]; [|lia].
      specialize (Hat Hk). rewrite Hdrop in E1.
      destruct (take_2_marker _ _ _ E1) as (l' & [= -> _]).
      rewrite Hc in Hat. discriminate. }
    destruct (text_eqb (take 2 (drop k t)) block_open) eqn:E2.
    { apply text_eqb_eq in E2.
      destruct (take_2_marker _ _ _ E2) as (l' & Hl').
      assert (Hlen : k + 2 <= length t).
      { apply (f_equal length) in Hl'. rewrite length_drop in Hl'. simpl in Hl'. lia. }
      destruct (skip_block_spec (S (length t)) t (k + 2)) as (j & -> & Hj & Hd);
        [lia..|].
      cbn [bind]. eexists. split; [done|]. cbn [result i in_string escape_next].
      rewrite Hd, drop_drop. repeat split; try done; lia. }
    by apply Hemit.
Qed.

(** ** The outer loop and the whole function *)

Lemma pending_end (t : text) (s : state) : length t <= i s -> pending t s = [].
Proof. intros H. unfold pending. by rewrite drop_ge. Qed.

Lemma loop_scan (fuel : nat) (t : text) (s : state) :
  length t - i s < fuel -> i s <= length t ->
  exists s', loop fuel t s = Ok s' /\ i s' = length t /\
    result s' = result s ++ pending t s.
Proof.
  revert s. induction fuel as [|fuel IH]; intros s Hf Hi; [lia|].
  cbn [loop]. destruct (Nat.ltb_spec (i s) (length t)) as [Hlt|Hge].
  - destruct (body_scan t s Hlt) as (s1 & -> & Hi1 & Hres & _). cbn [bind].
    destruct (IH s1) as (s' & -> & Hend & Hr); [lia..|].
    exists s'. repeat split; try done. by rewrite Hr, Hres.
  - exists s. rewrite pending_end, app_nil_r by done.
    repeat split; try done; lia.
Qed.

Lemma strip_comments_scan (t : text) : strip_comments t = Ok (scan_all false false t).
Proof.
  unfold strip_comments.
  destruct (loop_scan (S (length t)) t init) as (s & -> & _ & Hr); simpl; [lia..|].
  by rewrite Hr.
Qed.

(** ** The states the outer loop passes through *)

Lemma reachable_inv (t : text) (s : state) :
  reachable t s ->
  i s <= length t /\
  (escape_next s = true -> in_string s = true) /\
  result s ++ pending t s = scan_all false false t.
Proof.
  induction 1 as [|s s' _ (Hi & Hesc & Hres) Hlt Hb].
  - repeat split; simpl; try done; lia.
  - destruct (body_scan t s Hlt) as (s1 & Hb1 & Hi1 & Hres1 & Hesc1).
    rewrite Hb in Hb1. injection Hb1 as <-.
    repeat split; try done; try lia. by rewrite <- Hres1.
Qed.

Lemma reachable_finish (t : text) (s : state) :
  reachable t s -> strip_comments t = Ok (result s ++ pending t s).
Proof.
  intros H. destruct (reachable_inv t s H) as (_ & _ & ->).
  apply strip_comments_scan.
Qed.

(** The loop only visits reachable states, and ends in one. *)
Lemma loop_reachable (fuel : nat) (t : text) (s s' : state) :
  reachable t s -> loop fuel t s = Ok s' -> reachable t s'.
Proof.
  revert s. induction fuel as [|fuel IH]; intros s Hr; [discriminate|].
  cbn [loop]. destruct (Nat.ltb_spec (i s) (length t)) as [Hlt|Hge].
  - destruct (body t s) as [s1| |] eqn:Hb; try discriminate. cbn [bind].
    apply IH. by eapply reach_step.
  - by intros [= <-].
Qed.

(** ** Occurrences *)

Lemma occurs_spec (p t : text) :
  occurs p t = true <-> exists a b, t = a ++ p ++ b.
Proof.
  induction t as [|c t IH]; cbn [occurs].
  - rewrite text_eqb_eq. split.
    + intros ->. by exists [], [].
    + intros (a & b & H). symmetry in H.
      apply app_eq_nil in H as [_ H]. by apply app_eq_nil in H as [H _].
  - rewrite orb_true_iff, text_eqb_eq, IH. split.
    + intros [H|(a & b & ->)].
      * exists [], (drop (length p) (c :: t)). simpl.
        by rewrite <- H at 1; rewrite take_drop.
      * by exists (c :: a), b.
    + intros (a & b & H). destruct a as [|c' a].
      * left. simpl in H. by rewrite H, take_app_length.
      * right. injection H as -> ->. by exists a, b.
Qed.

(** ** Termination and totality *)

(** C8. [strip_comments] is total: on every text the outer loop ends
    within its fuel, with the cursor at the length of the text, and the
    function returns the accumulated result, without [IndexError];
    and every iteration entered with the cursor inside the text, from
    any state whatever, ends with a strictly larger cursor that is
    still within the text. *)
Theorem strip_comments_total (t : text) :
  (exists s, loop (S (length t)) t init = Ok s /\ i s = length t /\
     strip_comments t = Ok (result s)) /\
  (forall s, i s < length t ->
     exists s', body t s = Ok s' /\ i s < i s' <= length t).
Proof.
  split.
  - destruct (loop_scan (S (length t)) t init) as (s & Hl & Hi & _);
      simpl; [lia..|].
    exists s. repeat split; try done.
    unfold strip_comments. by rewrite Hl.
  - intros s Hs. destruct (body_scan t s Hs) as (s' & Hb & Hi & _).
    by exists s'.
Qed.

Lemma strip_comments_total_witness :
  exists s', body (lit "a//b") init = Ok s' /\
    i init < i s' <= length (lit "a//b").
Proof.
  apply (proj2 (strip_comments_total (lit "a//b")) init).
  simpl. lia.
Defined.

(** ** Texts without quotes or comment openers *)

Lemma occurs_cons_false (p : text) (c : char) (t : text) :
  occurs p (c :: t) = false ->
  take (length p) (c :: t) <> p /\ occurs p t = false.
Proof.
  cbn [occurs]. intros H. apply orb_false_iff in H as [H1 H2].
  by apply text_eqb_neq in H1.
Qed.

Lemma scan_all_plain (t : text) :
  occurs [dquote] t = false ->
  occurs line_marker t = false ->
  occurs block_open t = false ->
  scan_all false false t = t.
Proof.
  induction t as [|c t IH]; [done|].
  intros Hq Hl Hb.
  apply occurs_cons_false in Hq as [Hq Hq'].
  apply occurs_cons_false in Hl as [Hl Hl'].
  apply occurs_cons_false in Hb as [Hb Hb'].
  rewrite scan_all_cons, andb_false_r. cbn [negb andb].
  destruct (N.eqb_spec c dquote) as [->|_]; [by destruct Hq|].
  change (length line_marker) with 2 in Hl.
  change (length block_open) with 2 in Hb.
  apply text_eqb_neq in Hl as ->. apply text_eqb_neq in Hb as ->.
  by rewrite IH.
Qed.

(** C3. A text in which neither the double quote nor one of the
    two-character sequences [//] and [/*] occurs is returned unchanged
    (backslashes and all other characters are copied); in particular the
    empty text is mapped to the empty text. *)
Theorem strip_comments_identity :
  (forall t : text,
     occurs [dquote] t = false ->
     occurs line_marker t = false ->
     occurs block_open t = false ->
     strip_comments t = Ok t) /\
  strip_comments [] = Ok [].
Proof.
  split; [|reflexivity].
  intros t Hq Hl Hb. rewrite strip_comments_scan.
  by rewrite scan_all_plain.
Qed.

Lemma strip_comments_identity_witness :
  strip_comments (lit "a\b / * c") = Ok (lit "a\b / * c").
Proof.
  apply (proj1 strip_comments_identity (lit "a\b / * c")); reflexivity.
Defined.

(** ** Idempotence *)

Lemma scan_all_head (d : char) (l : text) :
  d <> slash -> exists z, scan_all false false (d :: l) = d :: z.
Proof.
  intros Hd. rewrite scan_all_cons, andb_false_r. cbn [negb andb].
  destruct (d =? dquote)%N; [by eexists|].
  assert (text_eqb (take 2 (d :: l)) line_marker = false) as ->.
  { apply text_eqb_neq. destruct l; intros [= ?]; done. }
  assert (text_eqb (take 2 (d :: l)) block_open = false) as ->.
  { apply text_eqb_neq. destruct l; intros [= ?]; done. }
  by eexists.
Qed.

(** A character followed by no comment opener is followed by none once
    the rest of the text is scanned. *)
Lemma take_2_scan (c : char) (l : text) (m : text) :
  m = line_marker \/ m = block_open ->
  take 2 (c :: l) <> line_marker -> take 2 (c :: l) <> block_open ->
  take 2 (c :: scan_all false false l) <> m.
Proof.
  intros Hm H1 H2. destruct l as [|d l].
  { rewrite scan_all_nil. by destruct Hm as [-> | ->]. }
  destruct (decide (d = slash)) as [->|Hd].
  - assert (c <> slash) by (intros ->; by apply H1).
    destruct (scan_all false false (slash :: l));
      destruct Hm as [-> | ->]; intros [= ?]; done.
  - destruct (scan_all_head d l Hd) as (z & ->).
    destruct Hm as [-> | ->]; done.
Qed.

Lemma scan_all_idem (n : nat) (ins esc : bool) (l : text) :
  length l <= n ->
  scan_all ins esc (scan_all ins esc l) = scan_all ins esc l.
Proof.
  revert ins esc l. induction n as [|n IH]; intros ins esc l Hn.
  { destruct l; [done|simpl in Hn; lia]. }
  destruct l as [|c l]; [done|]. cbn [length] in Hn.
  assert (Hl : length l <= n) by lia.
  rewrite (scan_all_cons ins esc c l).
  destruct esc.
  { by rewrite scan_all_cons, IH. }
  destruct ((c =? backslash)%N && ins) eqn:Ebs.
  { by rewrite scan_all_cons, Ebs, IH. }
  destruct (c =? dquote)%N eqn:Edq.
  { by rewrite scan_all_cons, Ebs, Edq, IH. }
  destruct (negb ins && text_eqb (take 2 (c :: l)) line_marker) eqn:E1.
  { comment_branch E1 Hlt.
    apply IH. lia. }
  destruct (negb ins && text_eqb (take 2 (c :: l)) block_open) eqn:E2.
  { comment_branch E2 Hlt.
    apply IH. lia. }
  rewrite scan_all_cons, Ebs, Edq.
  destruct ins; cbn [negb andb] in *; [by rewrite IH|].
  apply text_eqb_neq in E1, E2.
  assert (text_eqb (take 2 (c :: scan_all false false l)) line_marker = false) as ->.
  { apply text_eqb_neq, take_2_scan; auto. }
  assert (text_eqb (take 2 (c :: scan_all false false l)) block_open = false) as ->.
  { apply text_eqb_neq, take_2_scan; auto. }
  by rewrite IH.
Qed.

(** C2. [strip_comments] is idempotent: it returns a text on every input,
    and returns that same text when applied to it again. *)
Theorem strip_comments_idempotent (x : text) :
  exists y, strip_comments x = Ok y /\ strip_comments y = Ok y.
Proof.
  exists (scan_all false false x). rewrite !strip_comments_scan.
  split; [done|]. f_equal. by apply (scan_all_idem (length x)).
Qed.

(** ** The output is a subsequence of the input *)

Lemma rest_line_sublist (l : text) : rest_line l `sublist_of` l.
Proof.
  induction l as [|c l IH]; [done|]. cbn [rest_line].
  destruct (c =? newline)%N; [done|]. by apply sublist_cons.
Qed.

Lemma rest_block_sublist (l : text) : rest_block l `sublist_of` l.
Proof.
  induction l as [|c l IH]; [done|]. cbn [rest_block].
  destruct l as [|d l]; [done|].
  destruct (text_eqb [c; d] block_close).
  - by do 2 apply sublist_cons.
  - by apply sublist_cons.
Qed.

Lemma scan_sublist (n : nat) (ins esc : bool) (l : text) :
  scan n ins esc l `sublist_of` l.
Proof.
  revert ins esc l. induction n as [|n IH]; intros ins esc l.
  { apply sublist_nil_l. }
  destruct l as [|c l]; [done|]. cbn [scan].
  destruct esc; [by apply sublist_skip|].
  destruct ((c =? backslash)%N && ins); [by apply sublist_skip|].
  destruct (c =? dquote)%N; [by apply sublist_skip|].
  destruct (negb ins && text_eqb (take 2 (c :: l)) line_marker).
  { etrans; [apply IH|]. apply rest_line_sublist. }
  destruct (negb ins && text_eqb (take 2 (c :: l)) block_open).
  { etrans; [apply IH|]. etrans; [apply rest_block_sublist|].
    apply sublist_drop. }
  by apply sublist_skip.
Qed.

(** C9. The output of [strip_comments] is a subsequence of its input:
    it is obtained by deleting characters, so its characters come in the
    order of the input, each of them is a character of the input, and
    it is no longer than the input. *)
Theorem strip_comments_subsequence (x : text) :
  exists y, strip_comments x = Ok y /\
    y `sublist_of` x /\
    (forall c, c ∈ y -> c ∈ x) /\
    length y <= length x.
Proof.
  exists (scan_all false false x). rewrite strip_comments_scan.
  assert (H : scan_all false false x `sublist_of` x) by apply scan_sublist.
  repeat split; try done.
  - intros c Hc. by eapply elem_of_sublist.
  - by apply sublist_length.
Qed.

(** ** Comments outside strings *)

Lemma slice_2_inv (t : text) (k : nat) (a b : char) :
  slice t k (k + 2) = [a; b] ->
  t !! k = Some a /\ t !! (k + 1) = Some b /\ k + 2 <= length t.
Proof.
  rewrite slice_2. intros H. destruct (take_2_marker _ _ _ H) as (l' & Hl').
  assert (Hlen : k + 2 <= length t).
  { apply (f_equal length) in Hl'. rewrite length_drop in Hl'. simpl in Hl'. lia. }
  repeat split; [| |done].
  - rewrite <- (Nat.add_0_r k), <- lookup_drop, Hl'. done.
  - rewrite <- lookup_drop, Hl'. done.
Qed.

Lemma outside_string (t : text) (s : state) :
  reachable t s -> in_string s = false -> escape_next s = false.
Proof.
  intros Hr Hs. destruct (reachable_inv t s Hr) as (_ & Hesc & _).
  destruct (escape_next s); [|done]. rewrite Hesc in Hs; done.
Qed.

Lemma body_line (t : text) (s : state) :
  in_string s = false -> escape_next s = false ->
  slice t (i s) (i s + 2) = line_marker ->
  body t s =
    let! j := skip_line (S (length t)) t (i s) in
    Ok (State (result s) j false false).
Proof.
  intros Hs He Hm. destruct (slice_2_inv _ _ _ _ Hm) as (Hc & _ & _).
  unfold body. apply index_Ok in Hc. by rewrite Hc, Hs, He, Hm.
Qed.

Lemma body_block (t : text) (s : state) :
  in_string s = false -> escape_next s = false ->
  slice t (i s) (i s + 2) = block_open ->
  body t s =
    let! j := skip_block (S (length t)) t (i s + 2) in
    Ok (State (result s) j false false).
Proof.
  intros Hs He Hm. destruct (slice_2_inv _ _ _ _ Hm) as (Hc & _ & _).
  unfold body. apply index_Ok in Hc. by rewrite Hc, Hs, He, Hm.
Qed.

(** An ordinary character outside a string is appended. *)
Lemma body_plain (t : text) (s : state) (c : char) :
  in_string s = false -> escape_next s = false ->
  t !! i s = Some c -> c <> dquote -> c <> slash ->
  body t s = Ok (emit s c false false).
Proof.
  intros Hs He Hc Hq Hsl.
  assert (Hm : forall d, text_eqb (slice t (i s) (i s + 2)) [slash; d] = false).
  { intros d. apply text_eqb_neq. intros H.
    destruct (slice_2_inv _ _ _ _ H) as (Hc' & _). congruence. }
  unfold body. apply index_Ok in Hc. rewrite Hc, Hs, He. cbn [bind].
  rewrite andb_false_r. apply N.eqb_neq in Hq. rewrite Hq. cbn [andb negb].
  unfold line_marker, block_open. by rewrite !Hm.
Qed.

Lemma skip_block_found (fuel : nat) (t : text) (k p : nat) :
  length t - k < fuel -> k <= p ->
  slice t p (p + 2) = block_close ->
  (forall m, k <= m < p -> slice t m (m + 2) <> block_close) ->
  skip_block fuel t k = Ok (p + 2).
Proof.
  intros Hf Hk Hp. destruct (slice_2_inv _ _ _ _ Hp) as (_ & _ & Hlen).
  revert k Hf Hk. induction fuel as [|fuel IH]; intros k Hf Hk Hno; [lia|].
  cbn [skip_block]. destruct (Nat.ltb_spec k (length t - 1)) as [_|?]; [|lia].
  destruct (decide (k = p)) as [->|Hne].
  - apply text_eqb_eq in Hp. by rewrite Hp.
  - assert (text_eqb (slice t k (k + 2)) block_close = false) as ->.
    { apply text_eqb_neq, Hno. lia. }
    apply IH; [lia..|]. intros m Hm. apply Hno. lia.
Qed.

Lemma skip_block_none (fuel : nat) (t : text) (k : nat) :
  length t - k < fuel -> k < length t ->
  (forall m, k <= m -> slice t m (m + 2) <> block_close) ->
  skip_block fuel t k = Ok (length t - 1).
Proof.
  revert k. induction fuel as [|fuel IH]; intros k Hf Hk Hno; [lia|].
  cbn [skip_block]. destruct (Nat.ltb_spec k (length t - 1)) as [Hlt|Hge].
  - assert (text_eqb (slice t k (k + 2)) block_close = false) as ->.
    { apply text_eqb_neq, Hno. lia. }
    apply IH; [lia..|]. intros m Hm. apply Hno. lia.
  - f_equal. lia.
Qed.

Lemma scan_all_single (ins esc : bool) (c : char) : scan_all ins esc [c] = [c].
Proof.
  rewrite scan_all_cons, scan_all_nil.
  change (take 2 [c]) with [c].
  assert (forall m : text, length m = 2 -> text_eqb [c] m = false) as Hm.
  { intros m Hlen. apply text_eqb_neq. intros <-. done. }
  rewrite !Hm, !andb_false_r by done.
  by repeat case_match.
Qed.

Lemma occurs_false_drop (p l : text) (j : nat) :
  occurs p l = false -> take (length p) (drop j l) <> p.
Proof.
  revert j. induction l as [|c l IH]; intros j H.
  - rewrite drop_nil, take_nil. cbn [occurs] in H.
    apply text_eqb_neq in H. congruence.
  - apply occurs_cons_false in H as [H1 H2].
    destruct j as [|j]; [done|]. by apply IH.
Qed.

(** No [*/] in [t[k:]] means no [*/] at any cursor from [k] on. *)
Lemma no_close_after (t : text) (k : nat) :
  occurs block_close (drop k t) = false ->
  forall m, k <= m -> slice t m (m + 2) <> block_close.
Proof.
  intros H m Hm. rewrite slice_2.
  replace m with (k + (m - k)) by lia. rewrite <- drop_drop.
  by apply (occurs_false_drop block_close).
Qed.

(** C1. An unterminated block comment is not dropped whole: the inner
    loop stops one character before the end of the text, so when at
    least one character follows the opening [/*] and no [*/] follows,
    the cursor is left on the last character, which the outer loop then
    scans and appends; [strip_comments "1 /* never closed"] is ["1 d"],
    not ["1 "]. *)
Theorem unterminated_block_keeps_last_char :
  (forall (t : text) (s : state),
     reachable t s -> in_string s = false ->
     slice t (i s) (i s + 2) = block_open ->
     i s + 2 < length t ->
     (forall m, i s + 2 <= m -> slice t m (m + 2) <> block_close) ->
     exists c, t !! (length t - 1) = Some c /\
       body t s = Ok (State (result s) (length t - 1) false false) /\
       strip_comments t = Ok (result s ++ [c])) /\
  strip_comments never_closed = Ok (lit "1 d") /\
  strip_comments never_closed <> Ok (lit "1 ").
Proof.
  split; [|split; [reflexivity|discriminate]].
  intros t s Hr Hs Hopen Hlen Hno.
  destruct (lookup_lt_is_Some_2 t (length t - 1)) as [c Hc]; [lia|].
  assert (Hb : body t s = Ok (State (result s) (length t - 1) false false)).
  { rewrite body_block by eauto using outside_string.
    by rewrite (skip_block_none _ _ _) by (done || lia). }
  exists c. repeat split; try done.
  assert (Hr' : reachable t (State (result s) (length t - 1) false false)).
  { eapply reach_step; [done| |done]. lia. }
  rewrite (reachable_finish _ _ Hr'). unfold pending. simpl.
  rewrite (drop_cons_lookup _ _ _ Hc), drop_ge by lia.
  by rewrite scan_all_single.
Qed.

Lemma unterminated_block_keeps_last_char_witness :
  exists c, lit "/*ab" !! (length (lit "/*ab") - 1) = Some c /\
    body (lit "/*ab") init = Ok (State (result init) (length (lit "/*ab") - 1) false false) /\
    strip_comments (lit "/*ab") = Ok (result init ++ [c]).
Proof.
  apply (proj1 unterminated_block_keeps_last_char (lit "/*ab") init).
  - apply reach_init.
  - reflexivity.
  - reflexivity.
  - simpl. lia.
  - apply no_close_after. reflexivity.
Defined.

(** C4. When the outer loop meets [//] outside a string, the iteration
    appends nothing and leaves the cursor on the next newline, or at the
    end of the text when there is none: every character from the [//]
    up to there is dropped.  When there is a newline, the next iteration
    appends it.  [strip_comments] maps
    [{"a": 1, // trailing\n"b": 2}] to [{"a": 1, \n"b": 2}]. *)
Theorem line_comment_skipped :
  (forall (t : text) (s : state),
     reachable t s -> in_string s = false ->
     slice t (i s) (i s + 2) = line_marker ->
     exists j,
       body t s = Ok (State (result s) j false false) /\
       i s + 2 <= j <= length t /\
       (forall m, i s <= m < j -> t !! m <> Some newline) /\
       (j = length t \/
        t !! j = Some newline /\
        body t (State (result s) j false false) =
          Ok (State (result s ++ [newline]) (j + 1) false false))) /\
  strip_comments line_in = Ok line_out.
Proof.
  split; [|reflexivity].
  intros t s Hr Hs Hm.
  destruct (slice_2_inv _ _ _ _ Hm) as (Hc & Hd & Hlen).
  destruct (skip_line_spec (S (length t)) t (i s)) as (j & Hj & Hij & _ & Hno & Hat);
    [lia..|].
  exists j. rewrite body_line, Hj by eauto using outside_string.
  assert (j <> i s) by (intros ->; rewrite Hat in Hc by lia; discriminate).
  assert (j <> i s + 1) by (intros ->; rewrite Hat in Hd by lia; discriminate).
  repeat split; try done; try lia.
  destruct (decide (j = length t)) as [?|Hne]; [by left|right].
  assert (Hnl : t !! j = Some newline) by (apply Hat; lia).
  split; [done|]. by rewrite (body_plain _ _ newline).
Qed.

Lemma line_comment_skipped_witness :
  exists j,
    body (lit "// c" ++ [newline]) init = Ok (State (result init) j false false) /\
    i init + 2 <= j <= length (lit "// c" ++ [newline]) /\
    (forall m, i init <= m < j -> (lit "// c" ++ [newline]) !! m <> Some newline) /\
    (j = length (lit "// c" ++ [newline]) \/
     (lit "// c" ++ [newline]) !! j = Some newline /\
     body (lit "// c" ++ [newline]) (State (result init) j false false) =
       Ok (State (result init ++ [newline]) (j + 1) false false)).
Proof.
  apply (proj1 line_comment_skipped (lit "// c" ++ [newline]) init).
  - apply reach_init.
  - reflexivity.
  - reflexivity.
Defined.

(** C5. When the outer loop meets [/*] outside a string and [p] is the
    first cursor after the opener at which [*/] stands, the iteration
    appends nothing and leaves the cursor just after that [*/]: both
    delimiters and everything between them, newlines included, are
    dropped.  [strip_comments] maps [{"a": /* c1\nc2 */ 1}] to
    [{"a":  1}]. *)
Theorem block_comment_skipped :
  (forall (t : text) (s : state) (p : nat),
     reachable t s -> in_string s = false ->
     slice t (i s) (i s + 2) = block_open ->
     i s + 2 <= p -> slice t p (p + 2) = block_close ->
     (forall m, i s + 2 <= m < p -> slice t m (m + 2) <> block_close) ->
     body t s = Ok (State (result s) (p + 2) false false)) /\
  strip_comments block_in = Ok block_out.
Proof.
  split; [|reflexivity].
  intros t s p Hr Hs Hm Hp Hclose Hno.
  rewrite body_block by eauto using outside_string.
  by rewrite (skip_block_found _ _ _ p) by (done || lia).
Qed.

Lemma block_comment_skipped_witness :
  body (lit "/* c */x") init = Ok (State (result init) (5 + 2) false false).
Proof.
  apply (proj1 block_comment_skipped (lit "/* c */x") init 5).
  - apply reach_init.
  - reflexivity.
  - reflexivity.
  - simpl. lia.
  - reflexivity.
  - intros m Hm. simpl in Hm.
    assert (m = 2 \/ m = 3 \/ m = 4) as [-> | [-> | ->]] by lia; discriminate.
Defined.

(** ** Inside strings *)

Lemma body_in_string (t : text) (s : state) (c : char) :
  in_string s = true -> t !! i s = Some c ->
  c <> dquote -> c <> backslash ->
  body t s = Ok (emit s c true false).
Proof.
  intros Hs Hc Hq Hb. unfold body. apply index_Ok in Hc. rewrite Hc, Hs.
  cbn [bind]. apply N.eqb_neq in Hq, Hb. rewrite Hq, Hb.
  by destruct (escape_next s).
Qed.

(** Inside a string the two iterations that meet [//] or [/*] append
    the two characters, in order, and stay inside the string. *)
Lemma body_markers_in_string (t : text) (s : state) (m : text) :
  in_string s = true ->
  m = line_marker \/ m = block_open ->
  slice t (i s) (i s + 2) = m ->
  exists s1 s2, body t s = Ok s1 /\ body t s1 = Ok s2 /\
    result s2 = result s ++ m /\ i s2 = i s + 2 /\ in_string s2 = true.
Proof.
  intros Hs Hm Hsl.
  assert (exists d, m = [slash; d] /\ d <> dquote /\ d <> backslash) as (d & -> & Hd1 & Hd2).
  { destruct Hm as [-> | ->]; eexists; (split; [reflexivity|]); done. }
  destruct (slice_2_inv _ _ _ _ Hsl) as (Hc & Hd & _).
  exists (emit s slash true false), (emit (emit s slash true false) d true false).
  split; [by apply body_in_string|].
  split; [by apply body_in_string|].
  simpl. rewrite <- app_assoc. repeat split; try done; lia.
Qed.

Lemma body_in_string_change (t : text) (s s' : state) :
  body t s = Ok s' -> in_string s' <> in_string s ->
  t !! i s = Some dquote /\ escape_next s = false.
Proof.
  unfold body. destruct (index t (i s)) as [c| |] eqn:Hc; try discriminate.
  apply index_Ok in Hc. cbn [bind].
  destruct (escape_next s); [by intros [= <-]|].
  destruct ((c =? backslash)%N && in_string s); [by intros [= <-]|].
  destruct (N.eqb_spec c dquote) as [->|_]; cbn [andb negb]; [done|].
  destruct (negb (in_string s)); [|by intros [= <-]].
  destruct (text_eqb _ line_marker).
  { destruct (skip_line _ _ _); try discriminate. by intros [= <-]. }
  destruct (text_eqb _ block_open).
  { destruct (skip_block _ _ _); try discriminate. by intros [= <-]. }
  by intros [= <-].
Qed.

(** C7. The flag [in_string] changes in an iteration only if the
    character at the cursor is a double quote and no escape is pending;
    with an escape pending the character, a quote included, is appended
    by the first branch, which leaves [in_string] as it is and clears
    the escape.  [strip_comments] returns ["a \"// still string\" b"]
    unchanged. *)
Theorem in_string_changes_at_unescaped_quote :
  (forall (t : text) (s s' : state),
     body t s = Ok s' -> in_string s' <> in_string s ->
     t !! i s = Some dquote /\ escape_next s = false) /\
  (forall (t : text) (s : state) (c : char),
     escape_next s = true -> t !! i s = Some c ->
     body t s = Ok (emit s c (in_string s) false)) /\
  strip_comments escaped_quote = Ok escaped_quote.
Proof.
  split; [|split; [|reflexivity]].
  - apply body_in_string_change.
  - intros t s c He Hc. unfold body. apply index_Ok in Hc.
    by rewrite Hc, He.
Qed.

Lemma in_string_changes_at_unescaped_quote_witness :
  ([dquote] !! i init = Some dquote /\ escape_next init = false) /\
  body (lit "\" ++ [dquote]) (State (lit "\") 1 true true) =
    Ok (emit (State (lit "\") 1 true true) dquote
          (in_string (State (lit "\") 1 true true)) false).
Proof.
  split.
  - apply (proj1 in_string_changes_at_unescaped_quote [dquote] init
             (State [dquote] 1 true false)).
    + reflexivity.
    + discriminate.
  - apply (proj1 (proj2 in_string_changes_at_unescaped_quote)
             (lit "\" ++ [dquote]) (State (lit "\") 1 true true) dquote).
    + reflexivity.
    + reflexivity.
Defined.

(** C10. A backslash that ends the text, met inside a string with no
    escape pending, is appended like any other: the iteration sets the
    escape flag, the loop ends with the flag still set, and the function
    returns what was accumulated followed by that backslash. *)
Theorem dangling_escape (t : text) (s : state) :
  reachable t s -> i s + 1 = length t -> t !! i s = Some backslash ->
  in_string s = true -> escape_next s = false ->
  body t s = Ok (State (result s ++ [backslash]) (length t) true true) /\
  loop (S (length t)) t (State (result s ++ [backslash]) (length t) true true) =
    Ok (State (result s ++ [backslash]) (length t) true true) /\
  strip_comments t = Ok (result s ++ [backslash]).
Proof.
  intros Hr Hi Hc Hs He.
  assert (Hb : body t s = Ok (State (result s ++ [backslash]) (length t) true true)).
  { unfold body. apply index_Ok in Hc. rewrite Hc, Hs, He. cbn [bind andb].
    change (backslash =? backslash)%N with true. cbn [andb]. unfold emit.
    by rewrite Hi. }
  repeat split; [done| |].
  - cbn [loop i]. by rewrite Nat.ltb_irrefl.
  - rewrite (reachable_finish _ _ Hr). unfold pending.
    rewrite (drop_cons_lookup _ _ _ Hc), drop_ge by lia.
    by rewrite scan_all_single.
Qed.

Lemma dangling_escape_witness :
  body (lit "1" ++ [dquote] ++ lit "a\") (State (lit "1" ++ [dquote] ++ lit "a") 3 true false) =
    Ok (State (lit "1" ++ [dquote] ++ lit "a\") 4 true true) /\
  loop 5 (lit "1" ++ [dquote] ++ lit "a\") (State (lit "1" ++ [dquote] ++ lit "a\") 4 true true) =
    Ok (State (lit "1" ++ [dquote] ++ lit "a\") 4 true true) /\
  strip_comments (lit "1" ++ [dquote] ++ lit "a\") = Ok (lit "1" ++ [dquote] ++ lit "a\").
Proof.
  apply (dangling_escape (lit "1" ++ [dquote] ++ lit "a\")
           (State (lit "1" ++ [dquote] ++ lit "a") 3 true false)).
  - eapply reach_step; [eapply reach_step; [eapply reach_step; [apply reach_init|..]|..]|..];
      first [reflexivity | simpl; lia].
  - reflexivity.
  - reflexivity.
  - reflexivity.
  - reflexivity.
Defined.

(** ** The scan, piece by piece

    What [strip_comments] does to a text that begins with a run of plain
    characters, a string literal or a comment, whatever follows. *)

Lemma take_2_app_1 (c : char) (p x : text) :
  take 2 (c :: p ++ x) = take 2 (c :: p ++ take 1 x).
Proof. destruct p as [|d p]; [|done]. by destruct x. Qed.

Lemma scan_all_plain_prefix (p x : text) :
  occurs [dquote] p = false ->
  occurs line_marker (p ++ take 1 x) = false ->
  occurs block_open (p ++ take 1 x) = false ->
  scan_all false false (p ++ x) = p ++ scan_all false false x.
Proof.
  induction p as [|c p IH]; [done|].
  intros Hq Hl Hb. cbn [app] in *.
  apply occurs_cons_false in Hq as [Hq Hq'].
  apply occurs_cons_false in Hl as [Hl Hl'].
  apply occurs_cons_false in Hb as [Hb Hb'].
  rewrite scan_all_cons, andb_false_r. cbn [negb andb].
  destruct (N.eqb_spec c dquote) as [->|_]; [by destruct Hq|].
  change (length line_marker) with 2 in Hl.
  change (length block_open) with 2 in Hb.
  rewrite take_2_app_1.
  apply text_eqb_neq in Hl as ->. apply text_eqb_neq in Hb as ->.
  by rewrite IH.
Qed.

(** X1. A run of characters without a double quote in which no [//] and
    no [/*] begins (the first character of what follows included) is
    copied, and the scan goes on after it as from the start. *)
Theorem plain_prefix_copied (p x : text) :
  occurs [dquote] p = false ->
  occurs line_marker (p ++ take 1 x) = false ->
  occurs block_open (p ++ take 1 x) = false ->
  exists y, strip_comments x = Ok y /\ strip_comments (p ++ x) = Ok (p ++ y).
Proof.
  intros Hq Hl Hb. exists (scan_all false false x).
  rewrite !strip_comments_scan. split; [done|].
  by rewrite scan_all_plain_prefix.
Qed.

Lemma plain_prefix_copied_witness :
  exists y, strip_comments (lit "// c") = Ok y /\
    strip_comments (lit "a\ * / b" ++ lit "// c") = Ok (lit "a\ * / b" ++ y).
Proof.
  apply (plain_prefix_copied (lit "a\ * / b") (lit "// c")); reflexivity.
Defined.

Lemma scan_all_quote (ins : bool) (x : text) :
  scan_all ins false (dquote :: x) = dquote :: scan_all (negb ins) false x.
Proof. rewrite scan_all_cons. by destruct ins. Qed.

Lemma scan_all_string_body (n : nat) (w x : text) :
  length w <= n -> string_body w = true ->
  scan_all true false (w ++ dquote :: x) = w ++ dquote :: scan_all false false x.
Proof.
  revert w. induction n as [|n IH]; intros w Hn Hw.
  { destruct w; [|simpl in Hn; lia]. apply (scan_all_quote true). }
  destruct w as [|c w]; [apply (scan_all_quote true)|].
  cbn [length] in Hn. cbn [string_body] in Hw. cbn [app].
  rewrite scan_all_cons. cbn [negb andb]. rewrite andb_true_r.
  destruct (c =? backslash)%N.
  - destruct w as [|d w]; [done|]. cbn [length] in Hn. cbn [app].
    rewrite (scan_all_cons true true). by rewrite IH by (done || lia).
  - destruct (c =? dquote)%N; [done|]. by rewrite IH by (done || lia).
Qed.

(** X2. A string literal is copied whole, comment markers and escaped
    quotes inside it included, and the scan goes on after its closing
    quote as from the start. *)
Theorem string_literal_copied (w x : text) :
  string_body w = true ->
  exists y, strip_comments x = Ok y /\
    strip_comments ([dquote] ++ w ++ [dquote] ++ x) =
      Ok ([dquote] ++ w ++ [dquote] ++ y).
Proof.
  intros Hw. exists (scan_all false false x).
  rewrite !strip_comments_scan. split; [done|]. f_equal.
  cbn [app]. rewrite (scan_all_quote false). cbn [negb].
  by rewrite (scan_all_string_body (length w)).
Qed.

Lemma string_literal_copied_witness :
  exists y, strip_comments (lit " // c") = Ok y /\
    strip_comments ([dquote] ++ (lit "/* \" ++ [dquote] ++ lit " // \\") ++ [dquote] ++ lit " // c") =
      Ok ([dquote] ++ (lit "/* \" ++ [dquote] ++ lit " // \\") ++ [dquote] ++ y).
Proof.
  apply (string_literal_copied (lit "/* \" ++ [dquote] ++ lit " // \\") (lit " // c")).
  reflexivity.
Defined.

Lemma scan_all_string_open (n : nat) (w : text) :
  length w <= n -> string_body w = true ->
  scan_all true false w = w /\
  scan_all true false (w ++ [backslash]) = w ++ [backslash].
Proof.
  revert w. induction n as [|n IH]; intros w Hn Hw.
  { destruct w; [|simpl in Hn; lia]. split; [done|]. apply scan_all_single. }
  destruct w as [|c w]; [split; [done|apply scan_all_single]|].
  cbn [length] in Hn. cbn [string_body] in Hw. cbn [app].
  rewrite !scan_all_cons. cbn [negb andb]. rewrite andb_true_r.
  destruct (c =? backslash)%N.
  - destruct w as [|d w]; [done|]. cbn [length] in Hn. cbn [app].
    rewrite !(scan_all_cons true true).
    destruct (IH w) as [-> ->]; (done || lia).
  - destruct (c =? dquote)%N; [done|].
    destruct (IH w) as [-> ->]; (done || lia).
Qed.

(** X3. A string literal that is never closed is copied to the end of
    the text, whatever comment markers it holds, and so is one that ends
    in a lone backslash. *)
Theorem unterminated_string_copied (w : text) :
  string_body w = true ->
  strip_comments ([dquote] ++ w) = Ok ([dquote] ++ w) /\
  strip_comments ([dquote] ++ w ++ [backslash]) = Ok ([dquote] ++ w ++ [backslash]).
Proof.
  intros Hw. rewrite !strip_comments_scan. cbn [app].
  rewrite !(scan_all_quote false). cbn [negb].
  by destruct (scan_all_string_open (length w) w) as [-> ->].
Qed.

Lemma unterminated_string_copied_witness :
  strip_comments ([dquote] ++ lit "a // b /* c") = Ok ([dquote] ++ lit "a // b /* c") /\
  strip_comments ([dquote] ++ lit "a // b /* c" ++ [backslash]) =
    Ok ([dquote] ++ lit "a // b /* c" ++ [backslash]).
Proof.
  apply (unterminated_string_copied (lit "a // b /* c")). reflexivity.
Defined.

(** ** Comment markers inside string literals *)




(** ** Comments at the head of a text *)

Lemma scan_all_ordinary (c : char) (x : text) :
  c <> slash -> c <> dquote ->
  scan_all false false (c :: x) = c :: scan_all false false x.
Proof.
  intros Hs Hq. rewrite scan_all_cons, andb_false_r. cbn [negb andb].
  apply N.eqb_neq in Hq as ->.
  assert (forall d, text_eqb (take 2 (c :: x)) [slash; d] = false) as Hm.
  { intros d. apply text_eqb_neq. destruct x; intros [= ?]; done. }
  unfold line_marker, block_open. by rewrite !Hm.
Qed.

Lemma scan_all_line_open (l : text) :
  scan_all false false (slash :: slash :: l) =
    scan_all false false (rest_line (slash :: slash :: l)).
Proof. by rewrite scan_all_cons. Qed.

Lemma scan_all_block_open (l : text) :
  scan_all false false (slash :: star :: l) = scan_all false false (rest_block l).
Proof. by rewrite scan_all_cons. Qed.

Lemma rest_line_app (c x : text) :
  occurs [newline] c = false ->
  rest_line c = [] /\ rest_line (c ++ newline :: x) = newline :: x.
Proof.
  induction c as [|d c IH]; intros H; [done|].
  apply occurs_cons_false in H as [Hd H]. cbn [app rest_line].
  destruct (N.eqb_spec d newline) as [->|_]; [by destruct Hd|].
  by apply IH.
Qed.

(** X4. A line comment at the head of a text is dropped up to its
    newline, which is kept, and the scan goes on after the newline as
    from the start; when no newline follows, everything is dropped. *)
Theorem line_comment_removed (c x : text) :
  occurs [newline] c = false ->
  strip_comments (line_marker ++ c) = Ok [] /\
  exists y, strip_comments x = Ok y /\
    strip_comments (line_marker ++ c ++ [newline] ++ x) = Ok (newline :: y).
Proof.
  intros Hc.
  assert (Hs : occurs [newline] (slash :: slash :: c) = false).
  { cbn [occurs]. by rewrite Hc. }
  destruct (rest_line_app (slash :: slash :: c) x Hs) as [H1 H2].
  split.
  - rewrite strip_comments_scan. cbn [app line_marker].
    by rewrite scan_all_line_open, H1.
  - exists (scan_all false false x). rewrite !strip_comments_scan.
    split; [done|]. f_equal. cbn [app line_marker].
    cbn [app] in H2. rewrite scan_all_line_open, H2.
    by apply scan_all_ordinary.
Qed.

Lemma line_comment_removed_witness :
  strip_comments (line_marker ++ (lit " a /* b" ++ [dquote])) = Ok [] /\
  exists y, strip_comments (q "k") = Ok y /\
    strip_comments (line_marker ++ (lit " a /* b" ++ [dquote]) ++ [newline] ++ q "k") =
      Ok (newline :: y).
Proof.
  apply (line_comment_removed (lit " a /* b" ++ [dquote]) (q "k")). reflexivity.
Defined.

Lemma rest_block_app (c x : text) :
  occurs block_close (c ++ [star]) = false ->
  rest_block (c ++ star :: slash :: x) = x.
Proof.
  induction c as [|a c IH]; intros H; [done|].
  cbn [app] in H. apply occurs_cons_false in H as [Ha H].
  change (length block_close) with 2 in Ha.
  cbn [app rest_block]. destruct c as [|d c].
  - cbn [app] in *. apply text_eqb_neq in Ha.
    change (take 2 [a; star]) with [a; star] in Ha. rewrite Ha.
    by apply IH.
  - cbn [app] in *. apply text_eqb_neq in Ha.
    change (take 2 (a :: d :: ?l)) with [a; d] in Ha. rewrite Ha.
    by apply IH.
Qed.

(** X5. A block comment at the head of a text, closed by the first [*/]
    that begins after its opener, is dropped with both delimiters, and
    the scan goes on after it as from the start. *)
Theorem block_comment_removed (c x : text) :
  occurs block_close (c ++ [star]) = false ->
  strip_comments (block_open ++ c ++ block_close ++ x) = strip_comments x.
Proof.
  intros Hc. rewrite !strip_comments_scan. f_equal.
  cbn [app block_open block_close].
  by rewrite scan_all_block_open, rest_block_app.
Qed.

Lemma block_comment_removed_witness :
  strip_comments (block_open ++ (lit "/ a /* b *" ++ [newline; dquote]) ++ block_close ++ lit "1") =
    strip_comments (lit "1").
Proof.
  apply (block_comment_removed (lit "/ a /* b *" ++ [newline; dquote]) (lit "1")).
  reflexivity.
Defined.

(** ** What the output holds *)

Lemma occurs_single (a : char) (l : text) : occurs [a] l = false -> a ∉ l.
Proof.
  induction l as [|c l IH]; intros H; [apply not_elem_of_nil|].
  apply occurs_cons_false in H as [Hc H].
  apply not_elem_of_cons. split; [|by apply IH].
  intros ->. by apply Hc.
Qed.

Lemma scan_all_no_opener (n : nat) (l m : text) :
  length l <= n -> dquote ∉ l ->
  m = line_marker \/ m = block_open ->
  occurs m (scan_all false false l) = false.
Proof.
  intros Hn Hq Hm. revert l Hn Hq.
  induction n as [|n IH]; intros l Hn Hq.
  { destruct l; [|simpl in Hn; lia]. by destruct Hm as [-> | ->]. }
  destruct l as [|c l]; [by destruct Hm as [-> | ->]|].
  cbn [length] in Hn. apply not_elem_of_cons in Hq as [Hc Hq].
  rewrite scan_all_cons, andb_false_r. cbn [negb andb].
  assert ((c =? dquote)%N = false) as -> by (apply N.eqb_neq; congruence).
  destruct (text_eqb (take 2 (c :: l)) line_marker) eqn:E1.
  { apply text_eqb_eq in E1.
    pose proof (rest_line_marker _ E1) as Hlt. cbn [length] in Hlt.
    apply IH; [lia|]. intros Hin.
    apply (elem_of_sublist _ (c :: l)) in Hin; [|apply rest_line_sublist].
    by apply elem_of_cons in Hin as [?|?]. }
  destruct (text_eqb (take 2 (c :: l)) block_open) eqn:E2.
  { apply text_eqb_eq in E2.
    pose proof (rest_block_open _ E2) as Hlt. cbn [length] in Hlt.
    apply IH; [lia|]. intros Hin.
    apply (elem_of_sublist _ (c :: l)) in Hin.
    - by apply elem_of_cons in Hin as [?|?].
    - etrans; [apply rest_block_sublist|apply sublist_drop]. }
  apply text_eqb_neq in E1, E2.
  cbn [occurs]. apply orb_false_iff. split; [|apply IH; [lia|done]].
  apply text_eqb_neq.
  replace (length m) with 2 by (by destruct Hm as [-> | ->]).
  by apply take_2_scan.
Qed.

(** X6. The comments are gone: when no double quote occurs in the
    input, neither [//] nor [/*] occurs in the output; dropping a
    comment leaves no new opener behind. *)
Theorem no_opener_left (x : text) :
  occurs [dquote] x = false ->
  exists y, strip_comments x = Ok y /\
    occurs line_marker y = false /\ occurs block_open y = false.
Proof.
  intros Hq. apply occurs_single in Hq.
  exists (scan_all false false x). rewrite strip_comments_scan.
  split; [done|].
  split; apply (scan_all_no_opener (length x)); auto.
Qed.

Lemma no_opener_left_witness :
  exists y, strip_comments ((lit "/*x*//*y*// b" ++ [newline] ++ lit "2 / /* z */* 3")) = Ok y /\
    occurs line_marker y = false /\ occurs block_open y = false.
Proof.
  apply (no_opener_left ((lit "/*x*//*y*// b" ++ [newline] ++ lit "2 / /* z */* 3"))). reflexivity.
Defined.

Lemma newlines_cons (c : char) (l : text) :
  newlines (c :: l) = (if decide (c = newline) then 1 else 0) + newlines l.
Proof. unfold newlines. rewrite filter_cons. by destruct (decide (c = newline)). Qed.

Lemma newlines_rest_line (l : text) : newlines (rest_line l) = newlines l.
Proof.
  induction l as [|c l IH]; [done|]. cbn [rest_line].
  destruct (N.eqb_spec c newline) as [->|Hne]; [done|].
  rewrite newlines_cons, IH. by destruct (decide (c = newline)).
Qed.

Lemma occurs_rest_line (p l : text) :
  occurs p l = false -> occurs p (rest_line l) = false.
Proof.
  induction l as [|c l IH]; [done|]. intros H. cbn [rest_line].
  destruct (c =? newline)%N; [done|].
  apply occurs_cons_false in H as [_ H]. by apply IH.
Qed.

Lemma scan_all_newlines (n : nat) (ins esc : bool) (l : text) :
  length l <= n -> occurs block_open l = false ->
  newlines (scan_all ins esc l) = newlines l.
Proof.
  revert ins esc l. induction n as [|n IH]; intros ins esc l Hn Hb.
  { destruct l; [done|simpl in Hn; lia]. }
  destruct l as [|c l]; [done|]. cbn [length] in Hn.
  pose proof (occurs_rest_line _ _ Hb) as Hb'.
  apply occurs_cons_false in Hb as [Hc Hb].
  change (length block_open) with 2 in Hc.
  rewrite scan_all_cons.
  destruct esc; [by rewrite !newlines_cons, IH by (done || lia)|].
  destruct ((c =? backslash)%N && ins);
    [by rewrite !newlines_cons, IH by (done || lia)|].
  destruct (c =? dquote)%N; [by rewrite !newlines_cons, IH by (done || lia)|].
  destruct (negb ins && text_eqb (take 2 (c :: l)) line_marker) eqn:E1.
  { comment_branch E1 Hlt. rewrite IH by (done || lia).
    apply newlines_rest_line. }
  apply text_eqb_neq in Hc. rewrite Hc, andb_false_r.
  by rewrite !newlines_cons, IH by (done || lia).
Qed.

(** X7. Line comments leave the lines in place: when [/*] occurs
    nowhere in the input, the output has as many newline characters as
    the input. *)
Theorem newlines_kept (x : text) :
  occurs block_open x = false ->
  exists y, strip_comments x = Ok y /\ newlines y = newlines x.
Proof.
  intros Hb. exists (scan_all false false x). rewrite strip_comments_scan.
  split; [done|]. by apply (scan_all_newlines (length x)).
Qed.

Lemma newlines_kept_witness :
  exists y, strip_comments (line_in ++ [newline] ++ lit "// end") = Ok y /\
    newlines y = newlines (line_in ++ [newline] ++ lit "// end").
Proof.
  apply (newlines_kept (line_in ++ [newline] ++ lit "// end")). reflexivity.
Defined.

(** ** The script *)

Lemma scan_all_fixed_newline (y : text) (ins esc : bool) :
  scan_all ins esc y = y ->
  scan_all ins esc (y ++ [newline]) = y ++ [newline].
Proof.
  revert ins esc. induction y as [|c l IH]; intros ins esc H.
  { apply scan_all_single. }
  assert (Hshort : forall k : text, length k < length (c :: l) ->
            scan_all false false k <> c :: l).
  { intros k Hk Heq. pose proof (scan_sublist (length k) false false k) as Hs.
    apply sublist_length in Hs. unfold scan_all in Heq. rewrite Heq in Hs. lia. }
  assert (Hm : forall m : text, m = line_marker \/ m = block_open ->
            negb ins && text_eqb (take 2 (c :: l)) m = false ->
            negb ins && text_eqb (take 2 (c :: l ++ [newline])) m = false).
  { intros m Hm. destruct ins; [done|]. cbn [negb andb].
    rewrite !text_eqb_neq. destruct l as [|d l]; [|done].
    intros _. destruct Hm as [-> | ->]; intros [= ?]; done. }
  rewrite scan_all_cons in H. cbn [app]. rewrite scan_all_cons.
  destruct esc; [injection H as H; by rewrite IH|].
  destruct ((c =? backslash)%N && ins); [injection H as H; by rewrite IH|].
  destruct (c =? dquote)%N; [injection H as H; by rewrite IH|].
  destruct (negb ins && text_eqb (take 2 (c :: l)) line_marker) eqn:E1.
  { comment_branch E1 Hlt. by apply Hshort in H. }
  destruct (negb ins && text_eqb (take 2 (c :: l)) block_open) eqn:E2.
  { comment_branch E2 Hlt. by apply Hshort in H. }
  rewrite !Hm by auto. injection H as H. by rewrite IH.
Qed.

(** X8. The script writes the stripped text and a newline, and is not
    idempotent: fed its own output it writes it back with one more
    newline at the end, nothing else changed. *)
Theorem main_twice (x : text) :
  exists y, strip_comments x = Ok y /\
    main x = Ok (y ++ [newline]) /\
    main (y ++ [newline]) = Ok (y ++ [newline] ++ [newline]).
Proof.
  exists (scan_all false false x). unfold main.
  rewrite !strip_comments_scan. cbn [bind].
  split; [done|]. split; [done|].
  rewrite scan_all_fixed_newline by apply (scan_all_idem (length x)), le_n.
  by rewrite <- app_assoc.
Qed.

(** ** Texts without a slash, and the loop invariant *)

Lemma scan_all_no_slash (l : text) (ins esc : bool) :
  occurs [slash] l = false -> scan_all ins esc l = l.
Proof.
  revert ins esc. induction l as [|c l IH]; intros ins esc H; [done|].
  apply occurs_cons_false in H as [Hc H].
  assert (forall d, text_eqb (take 2 (c :: l)) [slash; d] = false) as Hm.
  { intros d. apply text_eqb_neq. destruct l; intros [= ?]; subst; by apply Hc. }
  rewrite scan_all_cons. unfold line_marker, block_open.
  rewrite !Hm, !andb_false_r, !IH by done.
  by repeat case_match.
Qed.

(** X9. Every comment needs a slash: a text in which no [/] occurs is
    returned unchanged, whatever quotes and backslashes it holds. *)
Theorem no_slash_identity (x : text) :
  occurs [slash] x = false -> strip_comments x = Ok x.
Proof.
  intros H. rewrite strip_comments_scan. by rewrite scan_all_no_slash.
Qed.

Lemma no_slash_identity_witness :
  strip_comments (lit "{" ++ q "a\" ++ lit ": [1, *2]" ++ [newline; dquote; backslash]) =
    Ok (lit "{" ++ q "a\" ++ lit ": [1, *2]" ++ [newline; dquote; backslash]).
Proof.
  apply (no_slash_identity
           (lit "{" ++ q "a\" ++ lit ": [1, *2]" ++ [newline; dquote; backslash])).
  reflexivity.
Defined.

(** An iteration either appends the character at the cursor and moves one
    step, or appends nothing and does not move back. *)
Lemma body_result (t : text) (s s' : state) :
  i s <= length t -> body t s = Ok s' ->
  (exists c, t !! i s = Some c /\ result s' = result s ++ [c] /\ i s' = i s + 1) \/
  (result s' = result s /\ i s <= i s').
Proof.
  intros Hi. unfold body.
  destruct (index t (i s)) as [c| |] eqn:Hc; try discriminate.
  apply index_Ok in Hc. cbn [bind].
  assert (Hemit : forall a b s', Ok (emit s c a b) = Ok s' ->
    (exists c, t !! i s = Some c /\ result s' = result s ++ [c] /\ i s' = i s + 1) \/
    (result s' = result s /\ i s <= i s')).
  { intros a b s0 [= <-]. left. by exists c. }
  destruct (escape_next s); [apply Hemit|].
  destruct ((c =? backslash)%N && in_string s); [apply Hemit|].
  destruct ((c =? dquote)%N && negb false); [apply Hemit|].
  destruct (negb (in_string s)); [|apply Hemit].
  destruct (text_eqb _ line_marker).
  { destruct (skip_line_spec (S (length t)) t (i s)) as (j & -> & Hj & _); [lia..|].
    intros [= <-]. right. simpl. split; [done|lia]. }
  destruct (text_eqb _ block_open) eqn:E2; [|apply Hemit].
  apply text_eqb_eq, slice_2_inv in E2 as (_ & _ & Hlen).
  destruct (skip_block_spec (S (length t)) t (i s + 2)) as (j & -> & Hj & _); [lia..|].
  intros [= <-]. right. simpl. split; [done|lia].
Qed.

(** X10. At the head of every iteration: the cursor is within the text,
    an escape is pending only inside a string, what was appended so far
    is a subsequence of the text before the cursor, and it is a prefix
    of what the function returns. *)
Theorem loop_invariant (t : text) (s : state) :
  reachable t s ->
  i s <= length t /\
  (escape_next s = true -> in_string s = true) /\
  result s `sublist_of` take (i s) t /\
  exists rest, strip_comments t = Ok (result s ++ rest).
Proof.
  intros Hr. destruct (reachable_inv t s Hr) as (Hi & Hesc & _).
  repeat split; try done.
  - clear Hi Hesc. induction Hr as [|s s' Hr IH Hlt Hb]; [done|].
    destruct (reachable_inv t s Hr) as (Hi & _).
    destruct (body_result t s s' Hi Hb) as [(c & Hc & -> & ->)|[-> Hle]].
    + rewrite Nat.add_1_r, (take_S_r _ _ _ Hc). by apply sublist_app.
    + etrans; [apply IH|].
      replace (take (i s) t) with (take (i s) (take (i s') t)).
      * apply sublist_take.
      * rewrite take_take. f_equal. lia.
  - exists (pending t s). by apply reachable_finish.
Qed.

Lemma loop_invariant_witness :
  i (State (lit "1") 6 false false) <= length (lit "1/*a*/2") /\
  (escape_next (State (lit "1") 6 false false) = true ->
   in_string (State (lit "1") 6 false false) = true) /\
  result (State (lit "1") 6 false false) `sublist_of`
    take (i (State (lit "1") 6 false false)) (lit "1/*a*/2") /\
  exists rest, strip_comments (lit "1/*a*/2") =
    Ok (result (State (lit "1") 6 false false) ++ rest).
Proof.
  apply (loop_invariant (lit "1/*a*/2") (State (lit "1") 6 false false)).
  eapply reach_step; [eapply reach_step; [apply reach_init|..]|..];
    first [reflexivity | simpl; lia].
Defined.
